(** * StringSplit: the [States.StringSplit] intrinsic function

    A shallow embedding of
    [localstack/services/stepfunctions/asl/component/intrinsic/function/
     statesfunction/string_operations/string_split.py]
    together with the part of Python's [re] module that the function
    reaches, and the properties of the intrinsic-function evaluator that
    concern it.

    Conventions.
    - A Python [str] is a Rocq [string]; a character stands for the code
      point of the same number, so the strings covered are those over
      U+0000..U+00FF.  The Unicode tables consulted by [re] are written
      out for that range.
    - The evaluation stack is a Python list: [append] adds at the end,
      [pop] removes the last entry.
    - A method that mutates the environment and may raise is a function
      from the environment to an outcome and the environment as the
      exception (or the return) leaves it. *)

From Stdlib Require Import Bool Arith NArith ZArith Lia List Ascii String.
Import ListNotations.
Set Warnings "-register-all".
Local Open Scope string_scope.
Local Open Scope list_scope.

(* ================================================================== *)
(** ** Python values and exceptions *)

(** The JSON-shaped values that travel on the evaluation stack. *)
Inductive Value : Type :=
| VNone
| VBool (b : bool)
| VInt (n : Z)
| VStr (s : string)
| VList (items : list Value)
| VDict (entries : list (string * Value)).

(** [isinstance(v, str)] *)
Definition isinstance_str (v : Value) : bool :=
  match v with
  | VStr _ => true
  | _ => false
  end.

(** The exceptions that can leave [StringSplit]: the two [ValueError]s
    raised by the function itself (the fixed part of the message and the
    value formatted into it), [IndexError] of [list.pop] on an empty
    list, [re.error] of a pattern that does not compile, [TypeError] of
    [re.split] on a subject that is not a string, and whatever the
    evaluation of an argument raises. *)
Inductive Exn : Type :=
| ValueError (msg : string) (got : Value)
| IndexError
| TypeError
| re_error (msg : string)
| Exception (name : string).

(* ================================================================== *)
(** ** The evaluation environment and its effects *)

(** Modelled from the spec: the [Environment] class is not among the
    sources.  It owns the current document, the call context and the
    evaluation stack; [StringSplit] touches only the stack. *)
Record Environment : Type := mkEnvironment {
  document : Value;
  call_context : Value;
  stack : list Value
}.

Definition with_stack (env : Environment) (st : list Value) : Environment :=
  {| document := document env;
     call_context := call_context env;
     stack := st |}.

(** A computation over the environment that returns or raises; the
    environment in the result is the one the caller observes next. *)
Definition M (A : Type) : Type := Environment -> (Exn + A) * Environment.

Definition ret {A} (a : A) : M A := fun env => (inr a, env).

Definition raise {A} (e : Exn) : M A := fun env => (inl e, env).

Definition bind {A B} (m : M A) (k : A -> M B) : M B :=
  fun env =>
    match m env with
    | (inl e, env') => (inl e, env')
    | (inr a, env') => k a env'
    end.

Notation "x <- m ;; k" := (bind m (fun x => k))
  (at level 61, m at next level, right associativity).
Notation "m ;;; k" := (bind m (fun _ => k))
  (at level 61, right associativity).

(** Splits a list into its front and its last entry. *)
Fixpoint unsnoc {A} (l : list A) : option (list A * A) :=
  match l with
  | [] => None
  | x :: l' =>
      match unsnoc l' with
      | None => Some ([], x)
      | Some (front, y) => Some (x :: front, y)
      end
  end.

(** [env.stack.append(v)] *)
Definition stack_append (v : Value) : M unit :=
  fun env => (inr tt, with_stack env (stack env ++ [v])).

(** [env.stack.pop()] *)
Definition stack_pop : M Value :=
  fun env =>
    match unsnoc (stack env) with
    | None => (inl IndexError, env)
    | Some (front, v) => (inr v, with_stack env front)
    end.

(* ================================================================== *)
(** ** Argument lists *)

(** Modelled from the spec: [FunctionArgument] and
    [FunctionArgumentList] are not among the sources.  An argument list
    is an ordered list of arguments, [size] is their number, and
    evaluating the list evaluates each argument left to right against
    the shared environment.  What one argument does to the stack is left
    to the argument. *)
Record FunctionArgument : Type := mkFunctionArgument {
  arg_eval : M unit
}.

Module FunctionArgumentList.

Record t : Type := mk { arg_list : list FunctionArgument }.

(** Modelled from the spec: the number of supplied arguments. *)
Definition size (self : t) : nat := List.length (arg_list self).

(** Modelled from the spec: the arguments are evaluated left to right. *)
Fixpoint eval_each (args : list FunctionArgument) : M unit :=
  match args with
  | [] => ret tt
  | a :: rest => arg_eval a ;;; eval_each rest
  end.

Definition eval (self : t) : M unit := eval_each (arg_list self).

End FunctionArgumentList.

(** An argument that is a literal: its evaluation pushes the literal. *)
Definition literal (v : Value) : FunctionArgument :=
  {| arg_eval := stack_append v |}.

(* ================================================================== *)
(** ** Python's [re] module, as far as [StringSplit] reaches it

    [StringSplit] hands [re.split] a pattern that is a [|]-separated
    alternation of two-character escapes [\c], or the empty pattern.
    The model follows CPython 3.7 to 3.13: [sre_parse._escape] for the
    meaning of an escape, and [pattern_split] and [sre_search] of
    [_sre.c] for the splitting loop, where a match may be empty and the
    search that follows an empty match must advance. *)

Definition ord (c : ascii) : N := N_of_ascii c.

Definition in_range (lo hi : N) (c : ascii) : bool :=
  ((lo <=? ord c) && (ord c <=? hi))%N.

Module unicode.

(** [Py_UNICODE_ISDECIMAL]: below U+0100 the decimal digits are 0-9. *)
Definition ISDECIMAL (c : ascii) : bool := in_range 48 57 c.

(** [Py_UNICODE_ISSPACE]: TAB..CR, FS..US, SPACE, NEL and NBSP. *)
Definition ISSPACE (c : ascii) : bool :=
  in_range 9 13 c || in_range 28 32 c
  || (ord c =? 133)%N || (ord c =? 160)%N.

(** [Py_UNICODE_ISALNUM]: alphabetic, decimal, digit or numeric.
    Below U+0100: the ASCII letters and digits, the ordinal
    indicators, the micro sign, the superscript digits, the vulgar
    fractions and the accented letters (not the multiplication and
    division signs). *)
Definition ISALNUM (c : ascii) : bool :=
  in_range 48 57 c || in_range 65 90 c || in_range 97 122 c
  || (ord c =? 170)%N || in_range 178 179 c || (ord c =? 181)%N
  || in_range 185 186 c || in_range 188 190 c
  || in_range 192 214 c || in_range 216 246 c || in_range 248 255 c.

End unicode.

Module sre_parse.

(** [DIGITS = frozenset("0123456789")] *)
Definition DIGITS (c : ascii) : bool := in_range 48 57 c.

(** [ASCIILETTERS]: a-z and A-Z. *)
Definition ASCIILETTERS (c : ascii) : bool :=
  in_range 65 90 c || in_range 97 122 c.

Inductive category : Type :=
| CATEGORY_DIGIT | CATEGORY_NOT_DIGIT
| CATEGORY_SPACE | CATEGORY_NOT_SPACE
| CATEGORY_WORD | CATEGORY_NOT_WORD.

Inductive at_code : Type :=
| AT_BEGINNING_STRING | AT_BOUNDARY | AT_NON_BOUNDARY | AT_END_STRING.

(** The parsed form of one escape. *)
Inductive op : Type :=
| LITERAL (c : ascii)
| IN (k : category)
| AT (a : at_code).

(** The [CATEGORIES] table. *)
Definition CATEGORIES (c : ascii) : option op :=
  if Ascii.eqb c "A" then Some (AT AT_BEGINNING_STRING)
  else if Ascii.eqb c "b" then Some (AT AT_BOUNDARY)
  else if Ascii.eqb c "B" then Some (AT AT_NON_BOUNDARY)
  else if Ascii.eqb c "d" then Some (IN CATEGORY_DIGIT)
  else if Ascii.eqb c "D" then Some (IN CATEGORY_NOT_DIGIT)
  else if Ascii.eqb c "s" then Some (IN CATEGORY_SPACE)
  else if Ascii.eqb c "S" then Some (IN CATEGORY_NOT_SPACE)
  else if Ascii.eqb c "w" then Some (IN CATEGORY_WORD)
  else if Ascii.eqb c "W" then Some (IN CATEGORY_NOT_WORD)
  else if Ascii.eqb c "Z" then Some (AT AT_END_STRING)
  else None.

(** The [ESCAPES] table ([\b] is found in [CATEGORIES] first). *)
Definition ESCAPES (c : ascii) : option op :=
  if Ascii.eqb c "a" then Some (LITERAL "007")
  else if Ascii.eqb c "b" then Some (LITERAL "008")
  else if Ascii.eqb c "f" then Some (LITERAL "012")
  else if Ascii.eqb c "n" then Some (LITERAL "010")
  else if Ascii.eqb c "r" then Some (LITERAL "013")
  else if Ascii.eqb c "t" then Some (LITERAL "009")
  else if Ascii.eqb c "v" then Some (LITERAL "011")
  else if Ascii.eqb c "\" then Some (LITERAL "\")
  else None.

(** [_escape] on the escape [\c] when the pattern goes on with [|] or
    ends: no further hexadecimal or octal digit can be taken, so [\x],
    [\u], [\U] and [\N] are incomplete, [\0] is the NUL character, and
    [\1]..[\9] refer to a group that does not exist. *)
Definition _escape (c : ascii) : string + op :=
  match CATEGORIES c with
  | Some code => inr code
  | None =>
      match ESCAPES c with
      | Some code => inr code
      | None =>
          if Ascii.eqb c "x" || Ascii.eqb c "u" || Ascii.eqb c "U"
          then inl "incomplete escape"
          else if Ascii.eqb c "N" then inl "missing {"
          else if Ascii.eqb c "0" then inr (LITERAL "000")
          else if DIGITS c then inl "invalid group reference"
          else if ASCIILETTERS c then inl "bad escape"
          else inr (LITERAL c)
      end
  end.

(** The outcome of parsing a pattern: the branches of the alternation
    (each an escape, or nothing), the message of [re.error], or a
    pattern with syntax other than escapes and [|], which this model
    does not cover. *)
Inductive parsed : Type :=
| Branches (bs : list (option op))
| Error (msg : string)
| Uncovered.

Definition add_branch (b : string + op) (rest : parsed) : parsed :=
  match b, rest with
  | inl msg, _ => Error msg
  | inr _, Error msg => Error msg
  | inr _, Uncovered => Uncovered
  | inr o, Branches bs => Branches (Some o :: bs)
  end.

Definition add_empty_branch (rest : parsed) : parsed :=
  match rest with
  | Branches bs => Branches (None :: bs)
  | other => other
  end.

(** [parse]: the pattern is read left to right; a backslash takes the
    next character as its escape, a [|] closes the branch. *)
Fixpoint parse (pattern : string) : parsed :=
  match pattern with
  | EmptyString => Branches [None]
  | String "|" rest => add_empty_branch (parse rest)
  | String "\" (String c EmptyString) => add_branch (_escape c) (Branches [])
  | String "\" (String c (String "|" rest)) => add_branch (_escape c) (parse rest)
  | String "\" EmptyString => Error "bad escape (end of pattern)"
  | _ => Uncovered
  end.

End sre_parse.

Module sre.

Import sre_parse.

(** [SRE_UNI_IS_WORD] *)
Definition UNI_IS_WORD (c : ascii) : bool :=
  unicode.ISALNUM c || Ascii.eqb c "_".

(** [sre_category] for the Unicode categories of a [str] pattern. *)
Definition category_matches (k : category) (c : ascii) : bool :=
  match k with
  | CATEGORY_DIGIT => unicode.ISDECIMAL c
  | CATEGORY_NOT_DIGIT => negb (unicode.ISDECIMAL c)
  | CATEGORY_SPACE => unicode.ISSPACE c
  | CATEGORY_NOT_SPACE => negb (unicode.ISSPACE c)
  | CATEGORY_WORD => UNI_IS_WORD c
  | CATEGORY_NOT_WORD => negb (UNI_IS_WORD c)
  end.

Definition is_word (c : option ascii) : bool :=
  match c with
  | Some c => UNI_IS_WORD c
  | None => false
  end.

(** [sre_at] at a position given by the character before it and the
    character at it ([None] at either end of the subject).  Neither
    boundary assertion holds anywhere in an empty subject. *)
Definition at_holds (a : at_code) (prev next : option ascii) : bool :=
  match a with
  | AT_BEGINNING_STRING =>
      match prev with None => true | Some _ => false end
  | AT_END_STRING =>
      match next with None => true | Some _ => false end
  | AT_BOUNDARY =>
      match prev, next with
      | None, None => false
      | _, _ => xorb (is_word prev) (is_word next)
      end
  | AT_NON_BOUNDARY =>
      match prev, next with
      | None, None => false
      | _, _ => Bool.eqb (is_word prev) (is_word next)
      end
  end.

(** What a match attempt at one position yields: nothing, the empty
    match, or the character at the position. *)
Inductive matched : Type := no_match | match_empty | match_char.

Definition match_branch (b : option op) (prev next : option ascii) : matched :=
  match b with
  | None => match_empty
  | Some (LITERAL c) =>
      match next with
      | Some c' => if Ascii.eqb c' c then match_char else no_match
      | None => no_match
      end
  | Some (IN k) =>
      match next with
      | Some c' => if category_matches k c' then match_char else no_match
      | None => no_match
      end
  | Some (AT a) => if at_holds a prev next then match_empty else no_match
  end.

(** [sre_match] on an alternation: the branches are tried in order; at
    the end of a branch an empty match is refused when the search must
    advance, and the next branch is tried. *)
Fixpoint sre_match (branches : list (option op)) (must_advance : bool)
    (prev next : option ascii) : matched :=
  match branches with
  | [] => no_match
  | b :: rest =>
      match match_branch b prev next with
      | match_char => match_char
      | match_empty =>
          if must_advance then sre_match rest must_advance prev next
          else match_empty
      | no_match => sre_match rest must_advance prev next
      end
  end.

(** [pattern_split] with [maxsplit = 0], from a position whose last
    search did not end in an empty match here: [prev] is the character
    before the position, [segment] the text since the end of the last
    match, [rest] the text from the position on.

    A search that fails at the position goes on one character further.
    A match of a character closes the segment and starts the next one
    after it.  An empty match closes the segment too; the search is then
    repeated at the same position with [must_advance] set, where only a
    match of a character counts, and otherwise goes on one character
    further.  At the end of the loop the text after the last match is
    appended, also when it is empty. *)
Fixpoint pattern_split (branches : list (option op)) (prev : option ascii)
    (segment rest : string) : list string :=
  match rest with
  | EmptyString =>
      match sre_match branches false prev None with
      | match_empty => [segment; ""]
      | _ => [segment]
      end
  | String c rest' =>
      match sre_match branches false prev (Some c) with
      | match_char => segment :: pattern_split branches (Some c) "" rest'
      | match_empty =>
          segment ::
          match sre_match branches true prev (Some c) with
          | match_char => "" :: pattern_split branches (Some c) "" rest'
          | _ => pattern_split branches (Some c) (String c "") rest'
          end
      | no_match =>
          pattern_split branches (Some c) (segment ++ String c "") rest'
      end
  end.

End sre.

Module re.

(** [re.split(pattern, string)]: the pattern is compiled first
    ([re.error] when it does not parse), then the subject is split
    ([TypeError] when it is not a string). *)
Definition split (pattern : String.string) (string : Value)
  : Exn + list String.string :=
  match sre_parse.parse pattern with
  | sre_parse.Error msg => inl (re_error msg)
  | sre_parse.Uncovered => inl (Exception "pattern outside the model")
  | sre_parse.Branches bs =>
      match string with
      | VStr s => inr (sre.pattern_split bs None "" s)
      | _ => inl TypeError
      end
  end.

End re.

(** An outcome of a pure call, taken into a computation. *)
Definition lift {A} (r : Exn + A) : M A :=
  match r with
  | inl e => raise e
  | inr a => ret a
  end.

(* ================================================================== *)
(** ** [class StringSplit(StatesFunction)] *)

(** The characters a [for] loop visits in a string. *)
Fixpoint chars (s : string) : list ascii :=
  match s with
  | EmptyString => []
  | String c s' => c :: chars s'
  end.

(** [for c in del_chars]; only reached with a string. *)
Definition iter (v : Value) : list ascii :=
  match v with
  | VStr s => chars s
  | _ => []
  end.

Inductive StatesFunctionNameType : Type := StringSplitName.

Module StringSplit.

Record t : Type := mk {
  states_name : StatesFunctionNameType;
  arg_list : FunctionArgumentList.t
}.

(** [__init__]: the base class stores the name and the argument list;
    the size of the list is then compared with 2. *)
Definition __init__ (arg_list : FunctionArgumentList.t) : Exn + t :=
  let self := {| states_name := StringSplitName; arg_list := arg_list |} in
  if negb (Nat.eqb (FunctionArgumentList.size arg_list) 2) then
    inl (ValueError "Expected 2 arguments for function type" VNone)
  else inr self.

(** The pattern built by the loop and the join. *)
Definition pattern_of (del_chars : Value) : string :=
  let patterns :=
    fold_left (fun patterns c => patterns ++ [String "\" (String c "")])
              (iter del_chars) [] in
  String.concat "|" patterns.

(** [_eval_body] *)
Definition _eval_body (self : t) : M unit :=
  FunctionArgumentList.eval (arg_list self) ;;;
  del_chars <- stack_pop ;;
  if negb (isinstance_str del_chars) then
    raise (ValueError "Expected string value as delimiting characters, but got"
                      del_chars)
  else
  string <- stack_pop ;;
  if negb (isinstance_str del_chars) then
    raise (ValueError "Expected string value, but got" del_chars)
  else
  let pattern := pattern_of del_chars in
  parts <- lift (re.split pattern string) ;;
  stack_append (VList (map VStr parts)).

End StringSplit.

(* ================================================================== *)
(** ** Reference definitions, in the words of the specification *)

(** Splitting a string at every occurrence of a delimiter character:
    a delimiter closes the current segment, and consecutive or boundary
    delimiters leave empty segments. *)
Fixpoint split_at_chars (is_delim : ascii -> bool) (segment s : string)
  : list string :=
  match s with
  | EmptyString => [segment]
  | String c s' =>
      if is_delim c then segment :: split_at_chars is_delim "" s'
      else split_at_chars is_delim (segment ++ String c "") s'
  end.

(** Membership of a character in the delimiter string. *)
Definition is_char_of (d : string) (c : ascii) : bool :=
  existsb (Ascii.eqb c) (chars d).

(** A call [States.StringSplit(string, delimiterChars)] on literals. *)
Definition call (string del_chars : Value) : StringSplit.t :=
  {| StringSplit.states_name := StringSplitName;
     StringSplit.arg_list :=
       FunctionArgumentList.mk [literal string; literal del_chars] |}.

Definition empty_env : Environment :=
  {| document := VNone; call_context := VNone; stack := [] |}.

(** Modelled from the spec: the outer assembly of a top-level call is
    not among the sources; it receives the one value the call has
    pushed, by taking it off the stack. *)
Definition eval_top_level (self : StringSplit.t) : M Value :=
  StringSplit._eval_body self ;;; stack_pop.

(** The argument evaluation of [self] in [env] returns, leaving [env1],
    and has pushed exactly one value per argument: the values [vs]. *)
Definition pushes_one_per_argument (self : StringSplit.t)
    (env env1 : Environment) (vs : list Value) : Prop :=
  FunctionArgumentList.eval (StringSplit.arg_list self) env = (inr tt, env1)
  /\ stack env1 = stack env ++ vs
  /\ List.length vs = FunctionArgumentList.size (StringSplit.arg_list self).

(** Delimiter characters whose escape [sre_parse] reads as the character
    itself: everything but the ASCII letters and digits. *)
Definition plain (c : ascii) : bool :=
  negb (sre_parse.DIGITS c || sre_parse.ASCIILETTERS c).

(** The branches that the escapes of the delimiter characters parse to. *)
Fixpoint escapes (cs : list ascii) : sre_parse.parsed :=
  match cs with
  | [] => sre_parse.Branches []
  | c :: rest => sre_parse.add_branch (sre_parse._escape c) (escapes rest)
  end.

(** The branches of a pattern whose escapes are all literal. *)
Definition literal_branches (cs : list ascii) : list (option sre_parse.op) :=
  map (fun c => Some (sre_parse.LITERAL c)) cs.

(** What [_eval_body] does when the evaluation of the arguments has
    returned with [string] and [del_chars] as the two topmost entries. *)
Definition body_outcome (env1 : Environment) (base : list Value)
    (string del_chars : Value) : (Exn + unit) * Environment :=
  if isinstance_str del_chars then
    match re.split (StringSplit.pattern_of del_chars) string with
    | inl e => (inl e, with_stack env1 base)
    | inr parts =>
        (inr tt, with_stack env1 (base ++ [VList (map VStr parts)]))
    end
  else
    (inl (ValueError "Expected string value as delimiting characters, but got"
                     del_chars),
     with_stack env1 (base ++ [string])).

(** An instance with three arguments, built without [__init__]. *)
Definition three_arguments : StringSplit.t :=
  {| StringSplit.states_name := StringSplitName;
     StringSplit.arg_list :=
       FunctionArgumentList.mk
         [literal (VInt 0); literal (VStr "a,b"); literal (VStr ",")] |}.

(** Two environments that agree on the stack only. *)
Definition env_a : Environment :=
  {| document := VInt 1; call_context := VNone; stack := [VBool true] |}.

Definition env_b : Environment :=
  {| document := VStr "a,b"; call_context := VStr ","; stack := [VBool true] |}.

(** An argument that is a reference: its evaluation pushes what it
    finds in the environment. *)
Definition reference (path : Environment -> Value) : FunctionArgument :=
  {| arg_eval := fun env => stack_append (path env) env |}.

(** A call whose arguments are the document and the call context. *)
Definition path_arguments : StringSplit.t :=
  {| StringSplit.states_name := StringSplitName;
     StringSplit.arg_list :=
       FunctionArgumentList.mk [reference document; reference call_context] |}.

(* ================================================================== *)
(** ** Vocabulary for the further properties *)

(** Evaluating the arguments of [self] in [env] returns and leaves
    [string] and [del_chars] as the two topmost entries, above [base]. *)
Definition operands_on_stack (self : StringSplit.t) (env : Environment)
    (base : list Value) (string del_chars : Value) : Prop :=
  exists env1,
    FunctionArgumentList.eval (StringSplit.arg_list self) env = (inr tt, env1)
    /\ stack env1 = base ++ [string; del_chars].

(** The evaluation returns and leaves the list [parts] above [base]. *)
Definition pushes (self : StringSplit.t) (env : Environment)
    (base : list Value) (parts : list string) : Prop :=
  exists env',
    StringSplit._eval_body self env = (inr tt, env')
    /\ stack env' = base ++ [VList (map VStr parts)].

(** The evaluation raises [e] and leaves the stack [st]. *)
Definition raises (self : StringSplit.t) (env : Environment)
    (st : list Value) (e : Exn) : Prop :=
  exists env',
    StringSplit._eval_body self env = (inl e, env') /\ stack env' = st.

(** The delimiter characters whose escape does not compile: the digits
    1 to 9, and the ASCII letters that name no class, assertion or
    control character. *)
Definition rejected (c : ascii) : bool :=
  (sre_parse.DIGITS c && negb (Ascii.eqb c "0"))
  || (sre_parse.ASCIILETTERS c && negb (is_char_of "AbBdDsSwWZafnrtv" c)).

(** The delimiter characters whose escape is an assertion, which
    matches without taking a character. *)
Definition asserting (c : ascii) : bool := is_char_of "AbBZ" c.

(** Whether the escape of the delimiter character [d] matches the
    character [c]: as a class for the six class letters, as a control
    character for the six control letters and the digit 0, as itself
    otherwise. *)
Definition escape_matches (d c : ascii) : bool :=
  match sre_parse._escape d with
  | inr (sre_parse.LITERAL c') => Ascii.eqb c c'
  | inr (sre_parse.IN k) => sre.category_matches k c
  | _ => false
  end.

(** The parsed escape of a delimiter character that compiles. *)
Definition op_of (d : ascii) : sre_parse.op :=
  match sre_parse._escape d with
  | inr o => o
  | inl _ => sre_parse.LITERAL d
  end.

(** A string without the characters that satisfy [f]. *)
Fixpoint without (f : ascii -> bool) (s : string) : string :=
  match s with
  | EmptyString => EmptyString
  | String c s' => if f c then without f s' else String c (without f s')
  end.

(** An instance with the given arguments, built without [__init__]. *)
Definition instance (args : list FunctionArgument) : StringSplit.t :=
  {| StringSplit.states_name := StringSplitName;
     StringSplit.arg_list := FunctionArgumentList.mk args |}.

(** Modelled from the spec: an argument that is a nested call; its
    evaluation is the evaluation of the call, which pushes its own
    result before the next argument is evaluated. *)
Definition nested (inner : StringSplit.t) : FunctionArgument :=
  {| arg_eval := StringSplit._eval_body inner |}.

(* ================================================================== *)
(** ** The stack *)

Section Stack.

Context {A : Type}.

Lemma unsnoc_app (l : list A) (x : A) : unsnoc (l ++ [x]) = Some (l, x).
Proof.
  induction l as [|y l IH]; simpl.
  - reflexivity.
  - rewrite IH. reflexivity.
Qed.

Lemma unsnoc_app2 (l : list A) (x y : A) :
  unsnoc (l ++ [x; y]) = Some (l ++ [x], y).
Proof.
  change [x; y] with ([x] ++ [y]).
  rewrite app_assoc. apply unsnoc_app.
Qed.

End Stack.

Lemma with_stack_twice env st st' :
  with_stack (with_stack env st) st' = with_stack env st'.
Proof. reflexivity. Qed.

Lemma stack_with_stack env st : stack (with_stack env st) = st.
Proof. reflexivity. Qed.

(** The arguments of a call on literals push the two literals. *)
Lemma call_pushes env string del_chars :
  FunctionArgumentList.eval (StringSplit.arg_list (call string del_chars)) env
  = (inr tt, with_stack env (stack env ++ [string; del_chars])).
Proof.
  unfold call, FunctionArgumentList.eval; simpl.
  unfold bind, stack_append, ret, with_stack; simpl.
  rewrite <- app_assoc. reflexivity.
Qed.

(** Arguments that each push exactly one value, whatever the
    environment, together push one value per argument. *)
Lemma each_argument_pushes_one (args : list FunctionArgument) :
  Forall (fun a => forall e, exists v,
              arg_eval a e = (inr tt, with_stack e (stack e ++ [v]))) args ->
  forall env, exists vs,
    FunctionArgumentList.eval_each args env
    = (inr tt, with_stack env (stack env ++ vs))
    /\ List.length vs = List.length args.
Proof.
  induction 1 as [|a args Ha _ IH]; intros env.
  - exists []. simpl. unfold ret, with_stack.
    rewrite app_nil_r. destruct env; auto.
  - destruct (Ha env) as [v Hv].
    destruct (IH (with_stack env (stack env ++ [v]))) as (vs & Hvs & Hlen).
    exists (v :: vs). simpl. unfold bind. rewrite Hv, Hvs.
    rewrite with_stack_twice, stack_with_stack, <- app_assoc.
    simpl. auto.
Qed.

(* ================================================================== *)
(** ** The pattern *)

Lemma patterns_loop (f : ascii -> string) (cs : list ascii) (acc : list string) :
  fold_left (fun patterns c => patterns ++ [f c]) cs acc = acc ++ map f cs.
Proof.
  revert acc. induction cs as [|c cs IH]; intros acc; simpl.
  - now rewrite app_nil_r.
  - rewrite IH, <- app_assoc. reflexivity.
Qed.

Lemma parse_joined_escapes (c : ascii) (cs : list ascii) :
  sre_parse.parse
    (String.concat "|" (map (fun c => String "\" (String c "")) (c :: cs)))
  = escapes (c :: cs).
Proof.
  revert c. induction cs as [|c' cs IH]; intros c.
  - reflexivity.
  - change (String.concat "|" (map (fun c => String "\" (String c "")) (c :: c' :: cs)))
      with (String "\" (String c (String "|"
              (String.concat "|" (map (fun c => String "\" (String c "")) (c' :: cs)))))).
    change (escapes (c :: c' :: cs))
      with (sre_parse.add_branch (sre_parse._escape c) (escapes (c' :: cs))).
    rewrite <- IH. reflexivity.
Qed.

(** What [re] makes of the pattern built for a delimiter string. *)
Lemma parse_pattern_of (d : string) :
  sre_parse.parse (StringSplit.pattern_of (VStr d)) =
  match chars d with
  | [] => sre_parse.Branches [None]
  | cs => escapes cs
  end.
Proof.
  unfold StringSplit.pattern_of, iter.
  rewrite patterns_loop. simpl app.
  destruct (chars d) as [|c cs].
  - reflexivity.
  - apply parse_joined_escapes.
Qed.

Lemma escapes_covered (cs : list ascii) : escapes cs <> sre_parse.Uncovered.
Proof.
  induction cs as [|c cs IH]; simpl.
  - discriminate.
  - destruct (sre_parse._escape c); simpl; [discriminate|].
    destruct (escapes cs); try discriminate. now elim IH.
Qed.

(** The pattern built by [StringSplit] is always within the model. *)
Lemma pattern_of_covered (v : Value) :
  sre_parse.parse (StringSplit.pattern_of v) <> sre_parse.Uncovered.
Proof.
  destruct v; try (cbv; discriminate).
  rewrite parse_pattern_of.
  destruct (chars s) eqn:E; [discriminate | apply escapes_covered].
Qed.

Lemma escape_plain (c : ascii) :
  plain c = true -> sre_parse._escape c = inr (sre_parse.LITERAL c).
Proof.
  destruct c as [[] [] [] [] [] [] [] []]; intros H;
    solve [ reflexivity | discriminate H ].
Qed.

Lemma escapes_plain (cs : list ascii) :
  Forall (fun c => plain c = true) cs ->
  escapes cs = sre_parse.Branches (map (fun c => Some (sre_parse.LITERAL c)) cs).
Proof.
  induction 1 as [|c cs Hc _ IH]; simpl.
  - reflexivity.
  - rewrite (escape_plain c Hc), IH. reflexivity.
Qed.

(* ================================================================== *)
(** ** Splitting at plain delimiters *)

Section PlainDelimiters.

Variable cs : list ascii.

Lemma sre_match_literals_end must_advance prev :
  sre.sre_match (literal_branches cs) must_advance prev None = sre.no_match.
Proof.
  induction cs as [|c l IH]; simpl; auto.
Qed.

Lemma sre_match_literals must_advance prev c :
  sre.sre_match (literal_branches cs) must_advance prev (Some c) =
  if existsb (Ascii.eqb c) cs then sre.match_char else sre.no_match.
Proof.
  induction cs as [|c' l IH]; simpl.
  - reflexivity.
  - destruct (Ascii.eqb c c'); simpl; auto.
Qed.

Lemma pattern_split_literals prev segment s :
  sre.pattern_split (literal_branches cs) prev segment s =
  split_at_chars (fun c => existsb (Ascii.eqb c) cs) segment s.
Proof.
  revert prev segment. induction s as [|c s IH]; intros prev segment; simpl.
  - now rewrite sre_match_literals_end.
  - rewrite sre_match_literals.
    destruct (existsb (Ascii.eqb c) cs); now rewrite IH.
Qed.

End PlainDelimiters.

(** [re.split] on the pattern of a non-empty delimiter string without
    ASCII letters and digits splits at the delimiter characters. *)
Lemma split_plain_delimiters (s d : string) :
  d <> "" ->
  Forall (fun c => plain c = true) (chars d) ->
  re.split (StringSplit.pattern_of (VStr d)) (VStr s)
  = inr (split_at_chars (is_char_of d) "" s).
Proof.
  intros Hd Hplain. unfold re.split.
  rewrite parse_pattern_of.
  destruct (chars d) as [|c cs] eqn:E.
  - destruct d; [now elim Hd | discriminate E].
  - rewrite (escapes_plain _ Hplain).
    change (map (fun c => Some (sre_parse.LITERAL c)) (c :: cs))
      with (literal_branches (c :: cs)).
    rewrite pattern_split_literals.
    unfold is_char_of. rewrite E. reflexivity.
Qed.

(* ================================================================== *)
(** ** Joining the segments again *)

Lemma split_at_chars_nonempty is_delim segment s :
  split_at_chars is_delim segment s <> [].
Proof.
  revert segment. induction s as [|c s IH]; intros segment; simpl.
  - discriminate.
  - destruct (is_delim c); [discriminate | apply IH].
Qed.

Lemma concat_cons sep x xs :
  xs <> [] -> String.concat sep (x :: xs) = (x ++ sep ++ String.concat sep xs)%string.
Proof. destruct xs; [now intros [] | reflexivity]. Qed.

Lemma string_app_assoc (a b c : string) :
  ((a ++ b) ++ c = a ++ (b ++ c))%string.
Proof. induction a as [|x a IH]; simpl; [reflexivity | now rewrite IH]. Qed.

Lemma string_app_nil_r (a : string) : (a ++ "")%string = a.
Proof. induction a as [|x a IH]; simpl; [reflexivity | now rewrite IH]. Qed.

Lemma join_split_one_char (c : ascii) (segment s : string) :
  String.concat (String c "") (split_at_chars (Ascii.eqb c) segment s)
  = (segment ++ s)%string.
Proof.
  revert segment. induction s as [|x s IH]; intros segment; simpl.
  - now rewrite string_app_nil_r.
  - destruct (Ascii.eqb c x) eqn:E.
    + apply Ascii.eqb_eq in E. subst x.
      rewrite concat_cons by apply split_at_chars_nonempty.
      rewrite IH. reflexivity.
    + rewrite IH, string_app_assoc. reflexivity.
Qed.

Lemma is_char_of_one (c x : ascii) :
  is_char_of (String c "") x = Ascii.eqb c x.
Proof.
  unfold is_char_of; simpl. rewrite orb_false_r. apply Ascii.eqb_sym.
Qed.

Lemma split_at_chars_ext f g segment s :
  (forall c, f c = g c) ->
  split_at_chars f segment s = split_at_chars g segment s.
Proof.
  intros H. revert segment. induction s as [|c s IH]; intros segment; simpl.
  - reflexivity.
  - rewrite H. destruct (g c); now rewrite IH.
Qed.

(* ================================================================== *)
(** ** The body, once the arguments are on the stack *)

Lemma eval_body_after_arguments self env env1 base string del_chars :
  FunctionArgumentList.eval (StringSplit.arg_list self) env = (inr tt, env1) ->
  stack env1 = base ++ [string; del_chars] ->
  StringSplit._eval_body self env = body_outcome env1 base string del_chars.
Proof.
  intros Hargs Hstack.
  unfold StringSplit._eval_body, body_outcome, bind at 1. rewrite Hargs.
  unfold bind at 1, stack_pop at 1. rewrite Hstack, unsnoc_app2.
  destruct (isinstance_str del_chars) eqn:Hdel; cbn [negb].
  - unfold bind at 1, stack_pop at 1.
    rewrite stack_with_stack, unsnoc_app, with_stack_twice.
    unfold bind, lift.
    destruct (re.split (StringSplit.pattern_of del_chars) string) as [e|parts].
    + reflexivity.
    + unfold ret, stack_append. now rewrite with_stack_twice.
  - reflexivity.
Qed.

Lemma eval_call env string del_chars :
  StringSplit._eval_body (call string del_chars) env
  = body_outcome env (stack env) string del_chars.
Proof.
  rewrite (eval_body_after_arguments _ _ _ (stack env) string del_chars
             (call_pushes env string del_chars) eq_refl).
  unfold body_outcome.
  destruct (isinstance_str del_chars); [|reflexivity].
  destruct (re.split _ _); reflexivity.
Qed.

Lemma init_inversion arg_list self :
  StringSplit.__init__ arg_list = inr self ->
  StringSplit.arg_list self = arg_list
  /\ FunctionArgumentList.size arg_list = 2.
Proof.
  unfold StringSplit.__init__.
  destruct (Nat.eqb (FunctionArgumentList.size arg_list) 2) eqn:E; simpl.
  - intros [= <-]. split; [reflexivity | now apply Nat.eqb_eq].
  - discriminate.
Qed.

Lemma two_values (vs : list Value) :
  List.length vs = 2 -> exists a b, vs = [a; b].
Proof.
  destruct vs as [|a [|b [|c vs]]]; try discriminate. intros _. eauto.
Qed.

(** After a construction that succeeded, arguments that push one value
    each leave the string and the delimiter characters on top. *)
Lemma constructed_operands arg_list self env env1 vs :
  StringSplit.__init__ arg_list = inr self ->
  pushes_one_per_argument self env env1 vs ->
  exists string del_chars,
    vs = [string; del_chars]
    /\ StringSplit._eval_body self env
       = body_outcome env1 (stack env) string del_chars.
Proof.
  intros Hinit (Hargs & Hstack & Hlen).
  destruct (init_inversion _ _ Hinit) as [Hal Hsize].
  rewrite Hal, Hsize in Hlen.
  destruct (two_values vs Hlen) as (string & del_chars & ->).
  exists string, del_chars. split; [reflexivity|].
  now apply eval_body_after_arguments.
Qed.

(** [re.split] on a subject that is not a string raises. *)
Lemma split_not_a_string del_chars string :
  isinstance_str string = false ->
  re.split (StringSplit.pattern_of del_chars) string = inl TypeError
  \/ exists msg, re.split (StringSplit.pattern_of del_chars) string
                 = inl (re_error msg).
Proof.
  intros Hs. unfold re.split.
  pose proof (pattern_of_covered del_chars) as Hcov.
  destruct (sre_parse.parse (StringSplit.pattern_of del_chars)) as [bs|msg|].
  - left. destruct string; try reflexivity. discriminate Hs.
  - right. eauto.
  - now elim Hcov.
Qed.

Lemma not_word_plain (c : ascii) : sre.UNI_IS_WORD c = false -> plain c = true.
Proof.
  destruct c as [[] [] [] [] [] [] [] []]; intros H;
    solve [ reflexivity | discriminate H ].
Qed.

(* ================================================================== *)
(** ** The claims *)

(** C1.  The claim: for every string s and every non-empty delimiter
    string d, StringSplit splits s exactly at the occurrences of the
    characters of d, each taken literally, alphanumeric characters
    included.  The code prefixes every delimiter character with a
    backslash, which makes an ASCII letter or digit a class, an
    assertion, a control character or a pattern that does not compile.
    Evaluated here: the delimiter [d] splits at the digits and not at
    the letter d, the delimiter [n] splits at line feeds and not at the
    letter n, and the delimiter [c] raises [re.error]; splitting at the
    delimiter characters themselves gives other results. *)
Theorem alphanumeric_delimiter_not_literal (env : Environment) :
  (StringSplit._eval_body (call (VStr "a1b2c") (VStr "d")) env
   = (inr tt,
      with_stack env (stack env ++ [VList [VStr "a"; VStr "b"; VStr "c"]]))
   /\ split_at_chars (is_char_of "d") "" "a1b2c" = ["a1b2c"])
  /\ (StringSplit._eval_body (call (VStr "banana") (VStr "n")) env
      = (inr tt, with_stack env (stack env ++ [VList [VStr "banana"]]))
      /\ split_at_chars (is_char_of "n") "" "banana" = ["ba"; "a"; "a"])
  /\ (StringSplit._eval_body (call (VStr "abc") (VStr "c")) env
      = (inl (re_error "bad escape"), with_stack env (stack env))
      /\ split_at_chars (is_char_of "c") "" "abc" = ["ab"; ""]).
Proof.
  rewrite !eval_call. repeat split.
Qed.

(** For a non-empty delimiter string without ASCII letters and digits
    the evaluation pushes the segments of the string between the
    delimiter characters. *)
Lemma plain_delimiters_split self env env1 base (s d : string) :
  d <> "" ->
  Forall (fun c => plain c = true) (chars d) ->
  FunctionArgumentList.eval (StringSplit.arg_list self) env = (inr tt, env1) ->
  stack env1 = base ++ [VStr s; VStr d] ->
  StringSplit._eval_body self env
  = (inr tt,
     with_stack env1
       (base ++ [VList (map VStr (split_at_chars (is_char_of d) "" s))])).
Proof.
  intros Hd Hplain Hargs Hstack.
  rewrite (eval_body_after_arguments _ _ _ _ _ _ Hargs Hstack).
  unfold body_outcome; cbn [isinstance_str].
  now rewrite split_plain_delimiters.
Qed.



(** C3.  Evaluating StringSplit fails with an error when the string
    operand, popped second, is not a string.  The error is the
    [ValueError] for the delimiting characters when those are no string
    either, and otherwise [re.error] or [TypeError] out of [re.split]. *)
Theorem non_string_operand_fails self env env1 base string del_chars :
  FunctionArgumentList.eval (StringSplit.arg_list self) env = (inr tt, env1) ->
  stack env1 = base ++ [string; del_chars] ->
  isinstance_str string = false ->
  exists e env',
    StringSplit._eval_body self env = (inl e, env')
    /\ (e = ValueError "Expected string value as delimiting characters, but got"
                       del_chars
        \/ e = TypeError
        \/ exists msg, e = re_error msg).
Proof.
  intros Hargs Hstack Hs.
  rewrite (eval_body_after_arguments _ _ _ _ _ _ Hargs Hstack).
  unfold body_outcome.
  destruct (isinstance_str del_chars).
  - destruct (split_not_a_string del_chars string Hs) as [E | [msg E]];
      rewrite E; eauto 7.
  - eauto 7.
Qed.

Lemma non_string_operand_fails_witness :
  exists e env',
    StringSplit._eval_body (call (VInt 5) (VStr ",")) empty_env = (inl e, env')
    /\ (e = ValueError "Expected string value as delimiting characters, but got"
                       (VStr ",")
        \/ e = TypeError
        \/ exists msg, e = re_error msg).
Proof.
  apply (non_string_operand_fails
           (call (VInt 5) (VStr ",")) empty_env
           (with_stack empty_env [VInt 5; VStr ","]) [] (VInt 5) (VStr ","));
    reflexivity.
Defined.

(** The second test of [_eval_body] looks at the delimiting characters
    again, so its [ValueError] is never the one raised. *)
Lemma second_check_never_raises self env env1 base string del_chars got env' :
  FunctionArgumentList.eval (StringSplit.arg_list self) env = (inr tt, env1) ->
  stack env1 = base ++ [string; del_chars] ->
  StringSplit._eval_body self env
  <> (inl (ValueError "Expected string value, but got" got), env').
Proof.
  intros Hargs Hstack.
  rewrite (eval_body_after_arguments _ _ _ _ _ _ Hargs Hstack).
  unfold body_outcome, re.split.
  destruct (isinstance_str del_chars); [|discriminate].
  destruct (sre_parse.parse _); try discriminate.
  destruct string; discriminate.
Qed.

(** C4, as stated, fails: when the delimiter operand is the integer 5,
    the evaluation raises and the string operand "abc" is still on the
    stack, whose depth is then not the depth before the evaluation. *)
Lemma failure_leaves_string_operand :
  exists e env',
    StringSplit._eval_body (call (VStr "abc") (VInt 5)) empty_env = (inl e, env')
    /\ stack env' = [VStr "abc"]
    /\ List.length (stack env') <> List.length (stack empty_env).
Proof.
  rewrite eval_call. do 2 eexists. split; [reflexivity|].
  split; [reflexivity | discriminate].
Qed.

(** C4, amended.  For a constructed StringSplit whose argument
    evaluation pushes one value per argument: on success exactly the
    single result is left above the entries that were on the stack
    before; on failure nothing is pushed and the operands that were
    popped stay popped, so the stack is as before the evaluation when
    the delimiter operand is a string, and holds the string operand in
    addition when it is not. *)
Theorem stack_after_evaluation arg_list self env env1 vs outcome env' :
  StringSplit.__init__ arg_list = inr self ->
  pushes_one_per_argument self env env1 vs ->
  StringSplit._eval_body self env = (outcome, env') ->
  exists string del_chars,
    vs = [string; del_chars]
    /\ match outcome with
       | inr _ => exists parts, stack env' = stack env ++ [VList (map VStr parts)]
       | inl _ =>
           stack env' =
           stack env ++ (if isinstance_str del_chars then [] else [string])
       end.
Proof.
  intros Hinit Hpush Heval.
  destruct (constructed_operands _ _ _ _ _ Hinit Hpush)
    as (string & del_chars & -> & Hbody).
  exists string, del_chars. split; [reflexivity|].
  rewrite Hbody in Heval. unfold body_outcome in Heval.
  destruct (isinstance_str del_chars).
  - destruct (re.split _ _) as [e|parts]; injection Heval as <- <-.
    + now rewrite app_nil_r.
    + now exists parts.
  - injection Heval as <- <-. reflexivity.
Qed.

Lemma stack_after_evaluation_witness :
  exists string del_chars,
    [VStr "abc"; VInt 5] = [string; del_chars]
    /\ stack (with_stack empty_env [VStr "abc"])
       = stack empty_env ++ (if isinstance_str del_chars then [] else [string]).
Proof.
  apply (stack_after_evaluation
           (FunctionArgumentList.mk [literal (VStr "abc"); literal (VInt 5)])
           (call (VStr "abc") (VInt 5)) empty_env
           (with_stack empty_env [VStr "abc"; VInt 5])
           [VStr "abc"; VInt 5]
           (inl (ValueError
                   "Expected string value as delimiting characters, but got"
                   (VInt 5)))
           (with_stack empty_env [VStr "abc"])).
  - reflexivity.
  - repeat split.
  - reflexivity.
Defined.

(** C5.  Evaluating StringSplit on the string "a,b;;c" with the
    delimiter string ",;" pushes ["a", "b", "", "c"]: the two
    consecutive delimiters leave an empty segment between them. *)
Theorem adjacent_delimiters_empty_segment self env env1 base :
  FunctionArgumentList.eval (StringSplit.arg_list self) env = (inr tt, env1) ->
  stack env1 = base ++ [VStr "a,b;;c"; VStr ",;"] ->
  StringSplit._eval_body self env
  = (inr tt,
     with_stack env1 (base ++ [VList [VStr "a"; VStr "b"; VStr ""; VStr "c"]])).
Proof.
  intros Hargs Hstack.
  now rewrite (eval_body_after_arguments _ _ _ _ _ _ Hargs Hstack).
Qed.

Lemma adjacent_delimiters_empty_segment_witness :
  StringSplit._eval_body (call (VStr "a,b;;c") (VStr ",;")) empty_env
  = (inr tt,
     with_stack (with_stack empty_env [VStr "a,b;;c"; VStr ",;"])
       ([] ++ [VList [VStr "a"; VStr "b"; VStr ""; VStr "c"]])).
Proof.
  apply (adjacent_delimiters_empty_segment
           (call (VStr "a,b;;c") (VStr ",;")) empty_env
           (with_stack empty_env [VStr "a,b;;c"; VStr ",;"]) []);
    reflexivity.
Defined.

(** C6.  StringSplit pops its operands in reverse declaration order.
    The delimiter characters, pushed last, are popped first and
    validated: when they are not a string the evaluation fails with the
    [ValueError] for them, and the stack is left with only that one
    entry removed, the string operand not yet popped.  Only when they
    are a string is the entry below them popped as the string operand:
    it is the subject handed to [re.split]; when the split raises, the
    stack is left without both operands, and when it returns, the list
    of the segments of that operand stands in their place. *)
Theorem pops_delimiter_first self env env1 front del_chars :
  FunctionArgumentList.eval (StringSplit.arg_list self) env = (inr tt, env1) ->
  stack env1 = front ++ [del_chars] ->
  (isinstance_str del_chars = false ->
   StringSplit._eval_body self env
   = (inl (ValueError "Expected string value as delimiting characters, but got"
                      del_chars),
      with_stack env1 front))
  /\ (isinstance_str del_chars = true ->
      forall base string, front = base ++ [string] ->
      StringSplit._eval_body self env
      = match re.split (StringSplit.pattern_of del_chars) string with
        | inl e => (inl e, with_stack env1 base)
        | inr parts =>
            (inr tt, with_stack env1 (base ++ [VList (map VStr parts)]))
        end).
Proof.
  intros Hargs Hstack. split.
  - intros Hdel.
    unfold StringSplit._eval_body, bind at 1. rewrite Hargs.
    unfold bind at 1, stack_pop at 1. rewrite Hstack, unsnoc_app.
    now rewrite Hdel.
  - intros Hdel base string ->.
    rewrite <- app_assoc in Hstack. simpl in Hstack.
    rewrite (eval_body_after_arguments _ _ _ _ _ _ Hargs Hstack).
    unfold body_outcome. now rewrite Hdel.
Qed.

Lemma pops_delimiter_first_witness :
  StringSplit._eval_body (call (VStr "abc") (VInt 5)) empty_env
  = (inl (ValueError "Expected string value as delimiting characters, but got"
                     (VInt 5)),
     with_stack empty_env [VStr "abc"])
  /\ StringSplit._eval_body (call (VStr "a,b") (VStr ",")) empty_env
     = (inr tt, with_stack empty_env [VList [VStr "a"; VStr "b"]])
  /\ StringSplit._eval_body (call (VInt 5) (VStr ",")) empty_env
     = (inl TypeError, with_stack empty_env []).
Proof.
  split; [|split].
  - exact (proj1 (pops_delimiter_first
                    (call (VStr "abc") (VInt 5)) empty_env
                    (with_stack empty_env [VStr "abc"; VInt 5])
                    [VStr "abc"] (VInt 5) eq_refl eq_refl)
                 eq_refl).
  - exact (proj2 (pops_delimiter_first
                    (call (VStr "a,b") (VStr ",")) empty_env
                    (with_stack empty_env [VStr "a,b"; VStr ","])
                    [VStr "a,b"] (VStr ",") eq_refl eq_refl)
                 eq_refl [] (VStr "a,b") eq_refl).
  - exact (proj2 (pops_delimiter_first
                    (call (VInt 5) (VStr ",")) empty_env
                    (with_stack empty_env [VInt 5; VStr ","])
                    [VInt 5] (VStr ",") eq_refl eq_refl)
                 eq_refl [] (VInt 5) eq_refl).
Defined.

(** C7.  For every environment whose argument evaluation pushes exactly
    one value per argument, a successful evaluation of a constructed
    StringSplit has the net effect pop 2, push 1 on the stack: the two
    operands are replaced by the one result, all entries below the
    result are as they were before the evaluation, and once the
    top-level evaluation has handed the result over, the stack, and so
    its depth, is what it was before. *)
Theorem net_effect_pop2_push1 arg_list self env env1 vs env' :
  StringSplit.__init__ arg_list = inr self ->
  pushes_one_per_argument self env env1 vs ->
  StringSplit._eval_body self env = (inr tt, env') ->
  exists string del_chars result,
    stack env1 = stack env ++ [string; del_chars]
    /\ stack env' = stack env ++ [result]
    /\ List.length (stack env') = List.length (stack env1) - 2 + 1
    /\ exists env'',
         eval_top_level self env = (inr result, env'')
         /\ stack env'' = stack env
         /\ List.length (stack env'') = List.length (stack env).
Proof.
  intros Hinit Hpush Heval.
  destruct (constructed_operands _ _ _ _ _ Hinit Hpush)
    as (string & del_chars & -> & Hbody).
  destruct Hpush as (_ & Hstack & _).
  rewrite Heval in Hbody. unfold body_outcome in Hbody.
  destruct (isinstance_str del_chars); [|discriminate].
  destruct (re.split _ _) as [e|parts]; [discriminate|].
  injection Hbody as ->.
  exists string, del_chars, (VList (map VStr parts)).
  repeat split.
  - exact Hstack.
  - rewrite stack_with_stack, Hstack, !length_app. simpl. lia.
  - exists (with_stack env1 (stack env)).
    unfold eval_top_level, bind. rewrite Heval.
    unfold stack_pop. rewrite stack_with_stack, unsnoc_app.
    repeat split.
Qed.

Lemma net_effect_pop2_push1_witness :
  exists string del_chars result,
    [VStr "a,b"; VStr ","] = [] ++ [string; del_chars]
    /\ [VList [VStr "a"; VStr "b"]] = [] ++ [result]
    /\ 1 = 2 - 2 + 1
    /\ exists env'',
         eval_top_level (call (VStr "a,b") (VStr ",")) empty_env
         = (inr result, env'')
         /\ stack env'' = []
         /\ List.length (stack env'') = 0.
Proof.
  apply (net_effect_pop2_push1
           (FunctionArgumentList.mk [literal (VStr "a,b"); literal (VStr ",")])
           (call (VStr "a,b") (VStr ",")) empty_env
           (with_stack empty_env [VStr "a,b"; VStr ","])
           [VStr "a,b"; VStr ","]
           (with_stack empty_env [VList [VStr "a"; VStr "b"]])).
  - reflexivity.
  - repeat split.
  - reflexivity.
Defined.

(** C8.  Constructing a StringSplit fails with an error exactly when
    the size of the argument list is not 2, and the body does not look
    at the size again: whatever the number of arguments of an instance,
    its evaluation succeeds as soon as the two topmost entries left by
    the arguments are a string and delimiter characters whose pattern
    compiles. *)
Theorem arity_checked_at_construction :
  (forall arg_list,
      (exists e, StringSplit.__init__ arg_list = inl e)
      <-> FunctionArgumentList.size arg_list <> 2)
  /\ (forall self env env1 base s d bs,
         FunctionArgumentList.eval (StringSplit.arg_list self) env
         = (inr tt, env1) ->
         stack env1 = base ++ [VStr s; VStr d] ->
         sre_parse.parse (StringSplit.pattern_of (VStr d))
         = sre_parse.Branches bs ->
         exists env', StringSplit._eval_body self env = (inr tt, env')).
Proof.
  split.
  - intros arg_list. unfold StringSplit.__init__.
    destruct (Nat.eqb (FunctionArgumentList.size arg_list) 2) eqn:E; simpl.
    + apply Nat.eqb_eq in E. split; [intros [e He]; discriminate He | tauto].
    + apply Nat.eqb_neq in E. split; [tauto | eauto].
  - intros self env env1 base s d bs Hargs Hstack Hparse.
    rewrite (eval_body_after_arguments _ _ _ _ _ _ Hargs Hstack).
    unfold body_outcome, re.split; cbn [isinstance_str].
    rewrite Hparse. eauto.
Qed.

Lemma arity_checked_at_construction_witness :
  ((exists e, StringSplit.__init__ (StringSplit.arg_list three_arguments) = inl e)
   <-> FunctionArgumentList.size (StringSplit.arg_list three_arguments) <> 2)
  /\ exists env', StringSplit._eval_body three_arguments empty_env = (inr tt, env').
Proof.
  split.
  - apply (proj1 arity_checked_at_construction).
  - apply (proj2 arity_checked_at_construction three_arguments empty_env
             (with_stack empty_env [VInt 0; VStr "a,b"; VStr ","])
             [VInt 0] "a,b" "," [Some (sre_parse.LITERAL ",")]);
      reflexivity.
Defined.

(** C9.  Round trip for a single delimiter that is neither alphanumeric
    nor the underscore: for every string s, joining the segments pushed
    by StringSplit(s, c) with c as separator yields s again. *)
Theorem join_after_split self env env1 base (s : string) (c : ascii) :
  sre.UNI_IS_WORD c = false ->
  FunctionArgumentList.eval (StringSplit.arg_list self) env = (inr tt, env1) ->
  stack env1 = base ++ [VStr s; VStr (String c "")] ->
  exists parts env',
    StringSplit._eval_body self env = (inr tt, env')
    /\ stack env' = base ++ [VList (map VStr parts)]
    /\ String.concat (String c "") parts = s.
Proof.
  intros Hc Hargs Hstack.
  exists (split_at_chars (is_char_of (String c "")) "" s). eexists.
  split; [|split].
  - apply (plain_delimiters_split self env env1 base s (String c "")); trivial.
    + discriminate.
    + repeat constructor. now apply not_word_plain.
  - reflexivity.
  - rewrite (split_at_chars_ext _ (Ascii.eqb c)) by apply is_char_of_one.
    apply join_split_one_char.
Qed.

Lemma join_after_split_witness :
  exists parts env',
    StringSplit._eval_body (call (VStr ",a,,b") (VStr ",")) empty_env
    = (inr tt, env')
    /\ stack env' = [] ++ [VList (map VStr parts)]
    /\ String.concat "," parts = ",a,,b".
Proof.
  apply (join_after_split
           (call (VStr ",a,,b") (VStr ",")) empty_env
           (with_stack empty_env [VStr ",a,,b"; VStr ","]) [] ",a,,b" ",");
    reflexivity.
Defined.

(** C10.  StringSplit evaluation is deterministic: two evaluations that
    start from environments with equal stacks, and whose argument
    evaluations push the same two values, end with the same outcome and
    with equal stacks, so with the same pushed result. *)
Theorem evaluation_deterministic self1 self2 env1 env2 env1' env2' v1 v2 :
  stack env1 = stack env2 ->
  FunctionArgumentList.eval (StringSplit.arg_list self1) env1 = (inr tt, env1') ->
  FunctionArgumentList.eval (StringSplit.arg_list self2) env2 = (inr tt, env2') ->
  stack env1' = stack env1 ++ [v1; v2] ->
  stack env2' = stack env2 ++ [v1; v2] ->
  fst (StringSplit._eval_body self1 env1) = fst (StringSplit._eval_body self2 env2)
  /\ stack (snd (StringSplit._eval_body self1 env1))
     = stack (snd (StringSplit._eval_body self2 env2)).
Proof.
  intros Heq Hargs1 Hargs2 Hstack1 Hstack2.
  rewrite (eval_body_after_arguments _ _ _ _ _ _ Hargs1 Hstack1).
  rewrite (eval_body_after_arguments _ _ _ _ _ _ Hargs2 Hstack2).
  unfold body_outcome. rewrite Heq.
  destruct (isinstance_str v2).
  - destruct (re.split _ _); split; reflexivity.
  - split; reflexivity.
Qed.

Lemma evaluation_deterministic_witness :
  fst (StringSplit._eval_body (call (VStr "a,b") (VStr ",")) env_a)
  = fst (StringSplit._eval_body path_arguments env_b)
  /\ stack (snd (StringSplit._eval_body (call (VStr "a,b") (VStr ",")) env_a))
     = stack (snd (StringSplit._eval_body path_arguments env_b)).
Proof.
  apply (evaluation_deterministic
           (call (VStr "a,b") (VStr ",")) path_arguments env_a env_b
           (with_stack env_a [VBool true; VStr "a,b"; VStr ","])
           (with_stack env_b [VBool true; VStr "a,b"; VStr ","])
           (VStr "a,b") (VStr ","));
    reflexivity.
Defined.

(* ================================================================== *)
(** ** Further properties of [_eval_body] *)

Lemma operands_outcome self env base string del_chars :
  operands_on_stack self env base string del_chars ->
  exists env1,
    StringSplit._eval_body self env = body_outcome env1 base string del_chars.
Proof.
  intros (env1 & Hargs & Hstack). exists env1.
  now apply eval_body_after_arguments.
Qed.

Lemma split_pushes self env base (subject : Value) (d : String.string) parts :
  operands_on_stack self env base subject (VStr d) ->
  re.split (StringSplit.pattern_of (VStr d)) subject = inr parts ->
  pushes self env base parts.
Proof.
  intros Hops Hsplit. destruct (operands_outcome _ _ _ _ _ Hops) as [env1 E].
  unfold body_outcome in E; cbn [isinstance_str] in E. rewrite Hsplit in E.
  eexists. split; [exact E | reflexivity].
Qed.

Lemma split_raises self env base (subject : Value) (d : String.string) e :
  operands_on_stack self env base subject (VStr d) ->
  re.split (StringSplit.pattern_of (VStr d)) subject = inl e ->
  raises self env base e.
Proof.
  intros Hops Hsplit. destruct (operands_outcome _ _ _ _ _ Hops) as [env1 E].
  unfold body_outcome in E; cbn [isinstance_str] in E. rewrite Hsplit in E.
  eexists. split; [exact E | reflexivity].
Qed.

Lemma pushes_inversion self env base string del_chars env' :
  operands_on_stack self env base string del_chars ->
  StringSplit._eval_body self env = (inr tt, env') ->
  exists parts,
    re.split (StringSplit.pattern_of del_chars) string = inr parts
    /\ stack env' = base ++ [VList (map VStr parts)].
Proof.
  intros Hops Heval. destruct (operands_outcome _ _ _ _ _ Hops) as [env1 E].
  rewrite Heval in E. unfold body_outcome in E.
  destruct (isinstance_str del_chars); [|discriminate].
  destruct (re.split _ _) as [e|parts]; [discriminate|].
  injection E as ->. now exists parts.
Qed.

(** *** Which escapes compile *)

Lemma rejected_escape (c : ascii) :
  rejected c = true -> exists msg, sre_parse._escape c = inl msg.
Proof.
  destruct c as [[] [] [] [] [] [] [] []]; intros H;
    solve [ discriminate H | eexists; reflexivity ].
Qed.

Lemma accepted_escape (c : ascii) :
  rejected c = false -> sre_parse._escape c = inr (op_of c).
Proof.
  destruct c as [[] [] [] [] [] [] [] []]; intros H;
    solve [ discriminate H | reflexivity ].
Qed.

Lemma character_escape (d : ascii) :
  rejected d = false -> asserting d = false ->
  (exists c', op_of d = sre_parse.LITERAL c') \/ (exists k, op_of d = sre_parse.IN k).
Proof.
  destruct d as [[] [] [] [] [] [] [] []]; intros H1 H2;
    solve [ discriminate H1 | discriminate H2
          | left; eexists; reflexivity | right; eexists; reflexivity ].
Qed.

Lemma escapes_accepted (cs : list ascii) :
  forallb (fun c => negb (rejected c)) cs = true ->
  escapes cs = sre_parse.Branches (map (fun c => Some (op_of c)) cs).
Proof.
  induction cs as [|c cs IH]; simpl.
  - reflexivity.
  - intros H. apply andb_prop in H as [Hc Hcs].
    apply negb_true_iff in Hc.
    rewrite (accepted_escape c Hc), (IH Hcs). reflexivity.
Qed.

Lemma escapes_rejected (cs : list ascii) :
  existsb rejected cs = true -> exists msg, escapes cs = sre_parse.Error msg.
Proof.
  induction cs as [|c cs IH]; simpl.
  - discriminate.
  - intros H. destruct (sre_parse._escape c) as [msg|o] eqn:E.
    + exists msg. reflexivity.
    + destruct (rejected c) eqn:Hc.
      * destruct (rejected_escape c Hc) as [msg E']. congruence.
      * destruct (IH H) as [msg ->]. exists msg. reflexivity.
Qed.

(** *** Splitting at escapes that take a character *)

Lemma match_branch_character (d : ascii) prev (c : ascii) :
  rejected d = false -> asserting d = false ->
  sre.match_branch (Some (op_of d)) prev (Some c)
  = (if escape_matches d c then sre.match_char else sre.no_match)
  /\ sre.match_branch (Some (op_of d)) prev None = sre.no_match.
Proof.
  intros Hr Ha. unfold escape_matches. rewrite (accepted_escape d Hr).
  destruct (character_escape d Hr Ha) as [[c' ->] | [k ->]]; split; reflexivity.
Qed.

Lemma sre_match_characters (cs : list ascii) must_advance prev :
  forallb (fun d => negb (rejected d) && negb (asserting d)) cs = true ->
  (forall c,
      sre.sre_match (map (fun d => Some (op_of d)) cs) must_advance prev (Some c)
      = if existsb (fun d => escape_matches d c) cs
        then sre.match_char else sre.no_match)
  /\ sre.sre_match (map (fun d => Some (op_of d)) cs) must_advance prev None
     = sre.no_match.
Proof.
  induction cs as [|d cs IH]; cbn [map forallb existsb sre.sre_match].
  - auto.
  - intros H. apply andb_prop in H as [Hd Hcs].
    apply andb_prop in Hd as [Hr Ha].
    apply negb_true_iff in Hr. apply negb_true_iff in Ha.
    destruct (IH Hcs) as [IH1 IH2]. split.
    + intros c.
      rewrite (proj1 (match_branch_character d prev c Hr Ha)).
      destruct (escape_matches d c); cbn [orb]; [reflexivity | apply IH1].
    + rewrite (proj2 (match_branch_character d prev "000"%char Hr Ha)).
      exact IH2.
Qed.

Lemma pattern_split_characters (cs : list ascii) prev segment s :
  forallb (fun d => negb (rejected d) && negb (asserting d)) cs = true ->
  sre.pattern_split (map (fun d => Some (op_of d)) cs) prev segment s
  = split_at_chars (fun c => existsb (fun d => escape_matches d c) cs) segment s.
Proof.
  intros H. revert prev segment.
  induction s as [|c s IH]; intros prev segment; simpl.
  - now rewrite (proj2 (sre_match_characters cs false prev H)).
  - rewrite (proj1 (sre_match_characters cs false prev H)).
    destruct (existsb _ cs); now rewrite IH.
Qed.

Lemma forallb_weaken {A} (f g : A -> bool) (l : list A) :
  (forall x, f x = true -> g x = true) ->
  forallb f l = true -> forallb g l = true.
Proof.
  intros Hfg. induction l as [|x l IH]; simpl; [reflexivity|].
  intros H. apply andb_prop in H as [Hx Hl].
  now rewrite (Hfg x Hx), (IH Hl).
Qed.

Lemma split_character_escapes (s d : string) :
  d <> "" ->
  forallb (fun c => negb (rejected c) && negb (asserting c)) (chars d) = true ->
  re.split (StringSplit.pattern_of (VStr d)) (VStr s)
  = inr (split_at_chars
           (fun c => existsb (fun dc => escape_matches dc c) (chars d)) "" s).
Proof.
  intros Hd H. unfold re.split. rewrite parse_pattern_of.
  destruct (chars d) as [|c cs] eqn:E.
  - destruct d; [now elim Hd | discriminate E].
  - rewrite escapes_accepted.
    + now rewrite pattern_split_characters.
    + revert H. apply forallb_weaken.
      intros x Hx. now apply andb_prop in Hx as [Hx _].
Qed.

(** *** Facts about splitting at characters *)

Lemma chars_append (a b : string) : chars (a ++ b) = chars a ++ chars b.
Proof. induction a as [|x a IH]; simpl; [reflexivity | now rewrite IH]. Qed.

Lemma split_at_chars_count f segment s :
  List.length (split_at_chars f segment s)
  = S (List.length (filter f (chars s))).
Proof.
  revert segment. induction s as [|c s IH]; intros segment; simpl.
  - reflexivity.
  - destruct (f c); simpl; now rewrite IH.
Qed.

Lemma split_at_chars_clean f segment s :
  Forall (fun c => f c = false) (chars segment) ->
  Forall (fun part => Forall (fun c => f c = false) (chars part))
         (split_at_chars f segment s).
Proof.
  revert segment. induction s as [|c s IH]; intros segment Hseg; simpl.
  - constructor; [exact Hseg | constructor].
  - destruct (f c) eqn:E.
    + constructor; [exact Hseg | apply IH; constructor].
    + apply IH. rewrite chars_append. apply Forall_app. split; [exact Hseg|].
      simpl. constructor; [exact E | constructor].
Qed.

Lemma concat_split_at_chars f segment s :
  String.concat "" (split_at_chars f segment s)
  = (segment ++ without f s)%string.
Proof.
  revert segment. induction s as [|c s IH]; intros segment; simpl.
  - now rewrite string_app_nil_r.
  - destruct (f c).
    + rewrite concat_cons by apply split_at_chars_nonempty.
      rewrite IH. reflexivity.
    + rewrite IH, string_app_assoc. reflexivity.
Qed.

Lemma split_at_chars_none f segment s :
  Forall (fun c => f c = false) (chars s) ->
  split_at_chars f segment s = [(segment ++ s)%string].
Proof.
  revert segment. induction s as [|c s IH]; intros segment H; simpl.
  - now rewrite string_app_nil_r.
  - inversion H as [|? ? Hc Hs]; subst. rewrite Hc, (IH _ Hs).
    now rewrite string_app_assoc.
Qed.

Lemma split_at_chars_trailing f segment s c :
  f c = true ->
  exists front, split_at_chars f segment (s ++ String c "") = front ++ [""].
Proof.
  intros Hc. revert segment.
  induction s as [|x s IH]; intros segment; simpl.
  - rewrite Hc. now exists [segment].
  - destruct (f x).
    + destruct (IH "") as [front ->]. now exists (segment :: front).
    + apply IH.
Qed.

Lemma pattern_split_nonempty bs prev segment s :
  sre.pattern_split bs prev segment s <> [].
Proof.
  revert prev segment. induction s as [|c s IH]; intros prev segment; simpl.
  - destruct (sre.sre_match bs false prev None); discriminate.
  - destruct (sre.sre_match bs false prev (Some c));
      [apply IH | discriminate | discriminate].
Qed.

Lemma pattern_split_empty_pattern prev segment s :
  sre.pattern_split [None] prev segment s
  = segment :: map (fun c => String c "") (chars s) ++ [""].
Proof.
  revert prev segment. induction s as [|c s IH]; intros prev segment; simpl.
  - reflexivity.
  - now rewrite IH.
Qed.

Lemma plain_chars (d : string) :
  forallb plain (chars d) = true -> Forall (fun c => plain c = true) (chars d).
Proof.
  intros H. apply Forall_forall. intros c Hc.
  exact (proj1 (forallb_forall plain (chars d)) H c Hc).
Qed.

Lemma split_plain self env base (s d : string) :
  d <> "" ->
  forallb plain (chars d) = true ->
  operands_on_stack self env base (VStr s) (VStr d) ->
  pushes self env base (split_at_chars (is_char_of d) "" s).
Proof.
  intros Hd Hplain Hops. apply (split_pushes _ _ _ _ _ _ Hops).
  apply split_plain_delimiters; [exact Hd | now apply plain_chars].
Qed.

Lemma is_char_of_included (d1 d2 : string) (c : ascii) :
  forallb (is_char_of d2) (chars d1) = true ->
  is_char_of d1 c = true -> is_char_of d2 c = true.
Proof.
  intros Hincl Hc. unfold is_char_of in Hc.
  apply existsb_exists in Hc as (x & Hx & E).
  apply Ascii.eqb_eq in E. subst x.
  exact (proj1 (forallb_forall _ _) Hincl c Hx).
Qed.

Lemma is_char_of_same_set (d1 d2 : string) (c : ascii) :
  forallb (is_char_of d2) (chars d1) = true ->
  forallb (is_char_of d1) (chars d2) = true ->
  is_char_of d1 c = is_char_of d2 c.
Proof.
  intros H12 H21.
  destruct (is_char_of d1 c) eqn:E1, (is_char_of d2 c) eqn:E2; trivial.
  - now rewrite (is_char_of_included d1 d2 c H12 E1) in E2.
  - now rewrite (is_char_of_included d2 d1 c H21 E2) in E1.
Qed.

(** X1.  With fewer than two entries on the stack after the arguments,
    the evaluation raises [IndexError] out of [pop] and leaves the
    stack empty: at once when there is no entry, and at the second pop,
    with the delimiter characters already taken, when there is one entry
    and it is a string. *)
Theorem too_few_operands self env env1 :
  FunctionArgumentList.eval (StringSplit.arg_list self) env = (inr tt, env1) ->
  stack env1 = [] \/ (exists d, stack env1 = [VStr d]) ->
  raises self env [] IndexError.
Proof.
  intros Hargs H. unfold raises, StringSplit._eval_body, bind at 1.
  rewrite Hargs. unfold bind at 1, stack_pop at 1.
  destruct H as [H | [d H]]; rewrite H; simpl.
  - exists env1. split; [reflexivity | exact H].
  - eexists. split; reflexivity.
Qed.

Lemma too_few_operands_witness :
  raises (instance [literal (VStr ",")]) empty_env [] IndexError.
Proof.
  apply (too_few_operands (instance [literal (VStr ",")]) empty_env
           (with_stack empty_env [VStr ","])).
  - reflexivity.
  - right. exists ",". reflexivity.
Defined.

(** X2.  When the delimiter string is not empty and the escape of each
    of its characters compiles to something that takes a character (a
    literal, a control character or a class, not an assertion), the
    string is split at every character that one of the escapes matches,
    and the segments between them are pushed in order. *)
Theorem splits_at_matched_characters self env base (s d : string) :
  d <> "" ->
  forallb (fun c => negb (rejected c) && negb (asserting c)) (chars d) = true ->
  operands_on_stack self env base (VStr s) (VStr d) ->
  pushes self env base
    (split_at_chars
       (fun c => existsb (fun dc => escape_matches dc c) (chars d)) "" s).
Proof.
  intros Hd H Hops. apply (split_pushes _ _ _ _ _ _ Hops).
  now apply split_character_escapes.
Qed.

Lemma splits_at_matched_characters_witness :
  pushes (call (VStr "a1b22c d") (VStr "ds")) empty_env []
         ["a"; "b"; ""; "c"; "d"].
Proof.
  apply (splits_at_matched_characters
           (call (VStr "a1b22c d") (VStr "ds")) empty_env [] "a1b22c d" "ds").
  - discriminate.
  - reflexivity.
  - eexists. split; reflexivity.
Defined.

(** X3.  For a non-empty delimiter string without ASCII letters and
    digits, the evaluation succeeds and pushes the segments of the
    string between the occurrences of the delimiter characters, empty
    segments included. *)
Theorem splits_at_plain_delimiters self env base (s d : string) :
  d <> "" ->
  forallb plain (chars d) = true ->
  operands_on_stack self env base (VStr s) (VStr d) ->
  pushes self env base (split_at_chars (is_char_of d) "" s).
Proof.
  exact (split_plain self env base s d).
Qed.

Lemma splits_at_plain_delimiters_witness :
  pushes (call (VStr "a.b|c") (VStr ".|")) empty_env [] ["a"; "b"; "c"].
Proof.
  apply (splits_at_plain_delimiters
           (call (VStr "a.b|c") (VStr ".|")) empty_env [] "a.b|c" ".|").
  - discriminate.
  - reflexivity.
  - eexists. split; reflexivity.
Defined.

(** X4.  For a non-empty delimiter string without ASCII letters and
    digits, the number of segments pushed is one more than the number of
    characters of the string that are delimiter characters. *)
Theorem segment_count self env base (s d : string) :
  d <> "" ->
  forallb plain (chars d) = true ->
  operands_on_stack self env base (VStr s) (VStr d) ->
  exists parts,
    pushes self env base parts
    /\ List.length parts = S (List.length (filter (is_char_of d) (chars s))).
Proof.
  intros Hd Hplain Hops. eexists. split.
  - exact (split_plain _ _ _ _ _ Hd Hplain Hops).
  - apply split_at_chars_count.
Qed.

Lemma segment_count_witness :
  exists parts,
    pushes (call (VStr ",a,,b") (VStr ",")) empty_env [] parts
    /\ List.length parts = 4.
Proof.
  apply (segment_count (call (VStr ",a,,b") (VStr ",")) empty_env [] ",a,,b" ",").
  - discriminate.
  - reflexivity.
  - eexists. split; reflexivity.
Defined.

(** X5.  For a non-empty delimiter string without ASCII letters and
    digits, no segment pushed contains a delimiter character. *)
Theorem segments_without_delimiters self env base (s d : string) :
  d <> "" ->
  forallb plain (chars d) = true ->
  operands_on_stack self env base (VStr s) (VStr d) ->
  exists parts,
    pushes self env base parts
    /\ Forall (fun part => Forall (fun c => is_char_of d c = false) (chars part))
              parts.
Proof.
  intros Hd Hplain Hops. eexists. split.
  - exact (split_plain _ _ _ _ _ Hd Hplain Hops).
  - apply split_at_chars_clean. constructor.
Qed.

Lemma segments_without_delimiters_witness :
  exists parts,
    pushes (call (VStr "k=v;x=y") (VStr ";=")) empty_env [] parts
    /\ Forall (fun part => Forall (fun c => is_char_of ";=" c = false) (chars part))
              parts.
Proof.
  apply (segments_without_delimiters
           (call (VStr "k=v;x=y") (VStr ";=")) empty_env [] "k=v;x=y" ";=").
  - discriminate.
  - reflexivity.
  - eexists. split; reflexivity.
Defined.

(** X6.  For a non-empty delimiter string without ASCII letters and
    digits, the segments pushed, put together without a separator, are
    the string with its delimiter characters removed: the split drops
    the delimiters and nothing else, and keeps the order. *)
Theorem segments_concatenated self env base (s d : string) :
  d <> "" ->
  forallb plain (chars d) = true ->
  operands_on_stack self env base (VStr s) (VStr d) ->
  exists parts,
    pushes self env base parts
    /\ String.concat "" parts = without (is_char_of d) s.
Proof.
  intros Hd Hplain Hops. eexists. split.
  - exact (split_plain _ _ _ _ _ Hd Hplain Hops).
  - apply concat_split_at_chars.
Qed.

Lemma segments_concatenated_witness :
  exists parts,
    pushes (call (VStr "k=v;x=y") (VStr ";=")) empty_env [] parts
    /\ String.concat "" parts = "kvxy".
Proof.
  apply (segments_concatenated
           (call (VStr "k=v;x=y") (VStr ";=")) empty_env [] "k=v;x=y" ";=").
  - discriminate.
  - reflexivity.
  - eexists. split; reflexivity.
Defined.

(** X7.  For a non-empty delimiter string without ASCII letters and
    digits, a string in which no delimiter character occurs, the empty
    string included, comes back whole, as the only segment. *)
Theorem no_delimiter_single_segment self env base (s d : string) :
  d <> "" ->
  forallb plain (chars d) = true ->
  forallb (fun c => negb (is_char_of d c)) (chars s) = true ->
  operands_on_stack self env base (VStr s) (VStr d) ->
  pushes self env base [s].
Proof.
  intros Hd Hplain Hnone Hops.
  pose proof (split_plain _ _ _ _ _ Hd Hplain Hops) as H.
  rewrite split_at_chars_none in H; [exact H|].
  apply Forall_forall. intros c Hc.
  apply negb_true_iff.
  exact (proj1 (forallb_forall _ _) Hnone c Hc).
Qed.

Lemma no_delimiter_single_segment_witness :
  pushes (call (VStr "") (VStr ",")) empty_env [] [""].
Proof.
  apply (no_delimiter_single_segment (call (VStr "") (VStr ",")) empty_env [] "" ",").
  - discriminate.
  - reflexivity.
  - reflexivity.
  - eexists. split; reflexivity.
Defined.

(** X8.  With the empty delimiter string, every string is split
    between all of its characters and at both of its ends: the segments
    pushed are the empty string, each character on its own, and the
    empty string again. *)
Theorem empty_delimiter_splits_between_characters self env base (s : string) :
  operands_on_stack self env base (VStr s) (VStr "") ->
  pushes self env base ("" :: map (fun c => String c "") (chars s) ++ [""]).
Proof.
  intros Hops. apply (split_pushes _ _ _ _ _ _ Hops).
  unfold re.split. rewrite parse_pattern_of. simpl chars. cbv iota.
  now rewrite pattern_split_empty_pattern.
Qed.

Lemma empty_delimiter_splits_between_characters_witness :
  pushes (call (VStr "") (VStr "")) empty_env [] [""; ""].
Proof.
  apply (empty_delimiter_splits_between_characters
           (call (VStr "") (VStr "")) empty_env [] "").
  eexists. split; reflexivity.
Defined.

(** X9.  When the delimiter string contains one of the digits 1 to 9,
    or an ASCII letter other than A, b, B, d, D, s, S, w, W, Z, a, f,
    n, r, t and v, the pattern does not compile: the evaluation raises
    [re.error] whatever the string operand is, a string or not, and
    whatever the other delimiter characters are, with both operands
    taken off the stack. *)
Theorem rejected_delimiter_raises self env base (subject : Value)
    (d : String.string) :
  existsb rejected (chars d) = true ->
  operands_on_stack self env base subject (VStr d) ->
  exists msg, raises self env base (re_error msg).
Proof.
  intros Hrej Hops.
  assert (exists msg, re.split (StringSplit.pattern_of (VStr d)) subject
                      = inl (re_error msg)) as [msg E].
  { unfold re.split. rewrite parse_pattern_of.
    destruct (chars d) as [|c cs] eqn:Ed; [discriminate Hrej|].
    destruct (escapes_rejected _ Hrej) as [msg ->]. now exists msg. }
  exists msg. exact (split_raises _ _ _ _ _ _ Hops E).
Qed.

Lemma rejected_delimiter_raises_witness :
  exists msg, raises (call (VStr "a,b") (VStr ",e")) empty_env [] (re_error msg).
Proof.
  apply (rejected_delimiter_raises
           (call (VStr "a,b") (VStr ",e")) empty_env [] (VStr "a,b") ",e").
  - reflexivity.
  - eexists. split; reflexivity.
Defined.

(** X10.  When no delimiter character is one of those whose escape does
    not compile, the outcome is decided by the string operand alone: a
    string is split and a list is pushed; anything else raises
    [TypeError] out of [re.split], with both operands taken off the
    stack. *)
Theorem accepted_delimiters_outcome self env base (subject : Value)
    (d : String.string) :
  forallb (fun c => negb (rejected c)) (chars d) = true ->
  operands_on_stack self env base subject (VStr d) ->
  if isinstance_str subject
  then exists parts, pushes self env base parts
  else raises self env base TypeError.
Proof.
  intros Hacc Hops.
  assert (exists bs, sre_parse.parse (StringSplit.pattern_of (VStr d))
                     = sre_parse.Branches bs) as [bs Hparse].
  { rewrite parse_pattern_of. destruct (chars d) as [|c cs] eqn:Ed.
    - now exists [None].
    - rewrite (escapes_accepted _ Hacc). eauto. }
  destruct subject; cbn [isinstance_str];
    try (apply (split_raises _ _ _ _ _ _ Hops);
         unfold re.split; now rewrite Hparse).
  eexists. apply (split_pushes _ _ _ _ _ _ Hops).
  unfold re.split. rewrite Hparse. reflexivity.
Qed.

Lemma accepted_delimiters_outcome_witness :
  raises (call (VList [VStr "a,b"]) (VStr ",")) empty_env [] TypeError.
Proof.
  apply (accepted_delimiters_outcome
           (call (VList [VStr "a,b"]) (VStr ",")) empty_env []
           (VList [VStr "a,b"]) ",").
  - reflexivity.
  - eexists. split; reflexivity.
Defined.

(** X11.  Whatever the operands, an evaluation that returns has pushed
    a list of strings with at least one element: the result is never
    the empty list. *)
Theorem result_never_empty self env base string del_chars env' :
  operands_on_stack self env base string del_chars ->
  StringSplit._eval_body self env = (inr tt, env') ->
  exists part parts, stack env' = base ++ [VList (map VStr (part :: parts))].
Proof.
  intros Hops Heval.
  destruct (pushes_inversion _ _ _ _ _ _ Hops Heval) as (parts & Hsplit & Hstack).
  unfold re.split in Hsplit.
  destruct (sre_parse.parse _) as [bs| |]; try discriminate.
  destruct string; try discriminate. injection Hsplit as <-.
  destruct (sre.pattern_split bs None "" s) as [|part parts] eqn:E.
  - now elim (pattern_split_nonempty bs None "" s).
  - now exists part, parts.
Qed.

Lemma result_never_empty_witness :
  exists part parts,
    stack (with_stack empty_env [VList [VStr ""; VStr ""]])
    = [] ++ [VList (map VStr (part :: parts))].
Proof.
  apply (result_never_empty
           (call (VStr "") (VStr "Z")) empty_env [] (VStr "") (VStr "Z")
           (with_stack empty_env [VList [VStr ""; VStr ""]])).
  - eexists. split; reflexivity.
  - reflexivity.
Defined.

(** X12.  For delimiter strings without ASCII letters and digits, only
    the set of delimiter characters counts: two non-empty delimiter
    strings in which the same characters occur, in whatever order and
    however often, give the same segments for the same string. *)
Theorem delimiter_order_irrelevant self1 env1 base1 self2 env2 base2
    (s d1 d2 : string) :
  d1 <> "" -> d2 <> "" ->
  forallb plain (chars d1) = true ->
  forallb plain (chars d2) = true ->
  forallb (is_char_of d2) (chars d1) = true ->
  forallb (is_char_of d1) (chars d2) = true ->
  operands_on_stack self1 env1 base1 (VStr s) (VStr d1) ->
  operands_on_stack self2 env2 base2 (VStr s) (VStr d2) ->
  exists parts,
    pushes self1 env1 base1 parts /\ pushes self2 env2 base2 parts.
Proof.
  intros Hd1 Hd2 Hp1 Hp2 H12 H21 Hops1 Hops2.
  exists (split_at_chars (is_char_of d1) "" s). split.
  - exact (split_plain _ _ _ _ _ Hd1 Hp1 Hops1).
  - rewrite (split_at_chars_ext (is_char_of d1) (is_char_of d2)).
    + exact (split_plain _ _ _ _ _ Hd2 Hp2 Hops2).
    + intros c. now apply is_char_of_same_set.
Qed.

Lemma delimiter_order_irrelevant_witness :
  exists parts,
    pushes (call (VStr "a,b;c") (VStr ",;")) empty_env [] parts
    /\ pushes (call (VStr "a,b;c") (VStr ";,,")) env_a [VBool true] parts.
Proof.
  apply (delimiter_order_irrelevant
           (call (VStr "a,b;c") (VStr ",;")) empty_env []
           (call (VStr "a,b;c") (VStr ";,,")) env_a [VBool true]
           "a,b;c" ",;" ";,,");
    try discriminate; try reflexivity; eexists; split; reflexivity.
Defined.

(** X13.  For a non-empty delimiter string without ASCII letters and
    digits, a string that begins with a delimiter character gives an
    empty first segment. *)
Theorem leading_delimiter_empty_segment self env base (c : ascii) (s d : string) :
  d <> "" ->
  forallb plain (chars d) = true ->
  is_char_of d c = true ->
  operands_on_stack self env base (VStr (String c s)) (VStr d) ->
  exists rest, pushes self env base ("" :: rest).
Proof.
  intros Hd Hplain Hc Hops.
  pose proof (split_plain _ _ _ _ _ Hd Hplain Hops) as H.
  simpl in H. rewrite Hc in H. eauto.
Qed.

Lemma leading_delimiter_empty_segment_witness :
  exists rest, pushes (call (VStr ";a") (VStr ";")) empty_env [] ("" :: rest).
Proof.
  apply (leading_delimiter_empty_segment
           (call (VStr ";a") (VStr ";")) empty_env [] ";" "a" ";").
  - discriminate.
  - reflexivity.
  - reflexivity.
  - eexists. split; reflexivity.
Defined.

(** X14.  For a non-empty delimiter string without ASCII letters and
    digits, a string that ends with a delimiter character gives an
    empty last segment. *)
Theorem trailing_delimiter_empty_segment self env base (c : ascii) (s d : string) :
  d <> "" ->
  forallb plain (chars d) = true ->
  is_char_of d c = true ->
  operands_on_stack self env base (VStr (s ++ String c "")) (VStr d) ->
  exists front, pushes self env base (front ++ [""]).
Proof.
  intros Hd Hplain Hc Hops.
  pose proof (split_plain _ _ _ _ _ Hd Hplain Hops) as H.
  destruct (split_at_chars_trailing (is_char_of d) "" s c Hc) as [front E].
  rewrite E in H. eauto.
Qed.

Lemma trailing_delimiter_empty_segment_witness :
  exists front, pushes (call (VStr "a;") (VStr ";")) empty_env [] (front ++ [""]).
Proof.
  apply (trailing_delimiter_empty_segment
           (call (VStr "a;") (VStr ";")) empty_env [] ";" "a" ";").
  - discriminate.
  - reflexivity.
  - reflexivity.
  - eexists. split; reflexivity.
Defined.

(** X15.  The result of StringSplit cannot be the string operand of
    another StringSplit: when the first argument is a nested call that
    returns, the outer evaluation raises [TypeError], or [re.error] when
    its delimiter string does not compile, and leaves the stack as it
    was before, the inner result taken off with the delimiter. *)
Theorem nested_call_fails inner env (parts : list string) (d : string) :
  pushes inner env (stack env) parts ->
  exists e,
    raises (instance [nested inner; literal (VStr d)]) env (stack env) e
    /\ (e = TypeError \/ exists msg, e = re_error msg).
Proof.
  intros (env_i & Hinner & Hstack).
  assert (Hops : operands_on_stack (instance [nested inner; literal (VStr d)])
                   env (stack env) (VList (map VStr parts)) (VStr d)).
  { exists (with_stack env_i (stack env_i ++ [VStr d])). split.
    - unfold instance, FunctionArgumentList.eval; simpl.
      unfold bind at 1. rewrite Hinner. reflexivity.
    - rewrite stack_with_stack, Hstack, <- app_assoc. reflexivity. }
  destruct (split_not_a_string (VStr d) (VList (map VStr parts)) eq_refl)
    as [E | [msg E]].
  - exists TypeError. split; [|now left].
    exact (split_raises _ _ _ _ _ _ Hops E).
  - exists (re_error msg). split; [|right; now exists msg].
    exact (split_raises _ _ _ _ _ _ Hops E).
Qed.

Lemma nested_call_fails_witness :
  exists e,
    raises (instance [nested (call (VStr "a,b;c") (VStr ";")); literal (VStr ",")])
           empty_env [] e
    /\ (e = TypeError \/ exists msg, e = re_error msg).
Proof.
  apply (nested_call_fails (call (VStr "a,b;c") (VStr ";")) empty_env
           ["a,b"; "c"] ",").
  exists (with_stack empty_env [VList [VStr "a,b"; VStr "c"]]).
  split; reflexivity.
Defined.

(** *** Splitting at assertions *)

Lemma asserting_escape (d : ascii) :
  asserting d = true ->
  rejected d = false /\ exists a, op_of d = sre_parse.AT a.
Proof.
  destruct d as [[] [] [] [] [] [] [] []]; intros H;
    solve [ discriminate H | split; [reflexivity | eexists; reflexivity] ].
Qed.

Lemma sre_match_assertions (cs : list ascii) must_advance prev next :
  forallb asserting cs = true ->
  sre.sre_match (map (fun d => Some (op_of d)) cs) must_advance prev next
  <> sre.match_char.
Proof.
  induction cs as [|d cs IH]; cbn [map forallb sre.sre_match].
  - discriminate.
  - intros H. apply andb_prop in H as [Hd Hcs].
    destruct (asserting_escape d Hd) as [_ [a ->]].
    cbn [sre.match_branch].
    destruct (sre.at_holds a prev next); [destruct must_advance|];
      solve [ discriminate | apply IH; exact Hcs ].
Qed.

Lemma concat_pattern_split_zero_width bs :
  (forall must_advance prev next,
      sre.sre_match bs must_advance prev next <> sre.match_char) ->
  forall s prev segment,
    String.concat "" (sre.pattern_split bs prev segment s)
    = (segment ++ s)%string.
Proof.
  intros Hbs. induction s as [|c s IH]; intros prev segment; simpl.
  - destruct (sre.sre_match bs false prev None); simpl;
      now rewrite ?string_app_nil_r.
  - destruct (sre.sre_match bs false prev (Some c)) eqn:E.
    + rewrite IH. apply string_app_assoc.
    + rewrite concat_cons.
      * destruct (sre.sre_match bs true prev (Some c)) eqn:E';
          try (now elim (Hbs true prev (Some c))); now rewrite IH.
      * destruct (sre.sre_match bs true prev (Some c));
          solve [ discriminate | apply pattern_split_nonempty ].
    + now elim (Hbs false prev (Some c)).
Qed.

(** X16.  For a delimiter string made only of the letters A, b, B and Z,
    whose escapes are assertions, and for the empty delimiter string,
    the evaluation succeeds and takes no character away: the segments
    pushed, put together without a separator, are the string itself. *)
Theorem assertions_remove_nothing self env base (s d : string) :
  forallb asserting (chars d) = true ->
  operands_on_stack self env base (VStr s) (VStr d) ->
  exists parts,
    pushes self env base parts /\ String.concat "" parts = s.
Proof.
  intros Hd Hops.
  assert (exists bs,
             sre_parse.parse (StringSplit.pattern_of (VStr d))
             = sre_parse.Branches bs
             /\ forall must_advance prev next,
                 sre.sre_match bs must_advance prev next <> sre.match_char)
    as (bs & Hparse & Hbs).
  { rewrite parse_pattern_of. destruct (chars d) as [|c cs] eqn:Ed.
    - exists [None]. split; [reflexivity|].
      intros [] prev next; discriminate.
    - eexists. split.
      + apply escapes_accepted. revert Hd. apply forallb_weaken.
        intros x Hx. now rewrite (proj1 (asserting_escape x Hx)).
      + intros. now apply sre_match_assertions. }
  exists (sre.pattern_split bs None "" s). split.
  - apply (split_pushes _ _ _ _ _ _ Hops). unfold re.split. now rewrite Hparse.
  - now rewrite concat_pattern_split_zero_width.
Qed.

Lemma assertions_remove_nothing_witness :
  exists parts,
    pushes (call (VStr "ab cd") (VStr "bZ")) empty_env [] parts
    /\ String.concat "" parts = "ab cd".
Proof.
  apply (assertions_remove_nothing
           (call (VStr "ab cd") (VStr "bZ")) empty_env [] "ab cd" "bZ").
  - reflexivity.
  - eexists. split; reflexivity.
Defined.
